(** * A shallow embedding of [sl_drv::SensorCapture] (src/src/sensorcapture.cpp)

    The session driver of the sensor hub of a ZED stereo camera: device
    enumeration ([enumerateDevices]), opening ([init], [startCapture]),
    closing ([reset]) and the capture thread body ([grabThreadFunc]).

    The header [sensorcapture.hpp] (layout of [SensData], the status enums,
    the sentinel and scale constants) is not part of the sources; every
    statement below is therefore proved for an arbitrary header, given as a
    record [SensHeader] of those constants.  The C++ float arithmetic of
    [raw * SCALE] is kept abstract too ([fmul]), so nothing depends on
    how the floats round. *)

From Stdlib Require Import ZArith List String Ascii Bool Lia Sorted.
Import ListNotations.
Open Scope Z_scope.

(** ** Raw sensor frame: the fields of [struct SensData] read by the code.
    Every field is the integer value of the corresponding C field. *)
Record SensData := {
  struct_id : Z;
  imu_not_valid : Z;
  timestamp : Z;
  gX : Z; gY : Z; gZ : Z;
  aX : Z; aY : Z; aZ : Z;
  imu_temp : Z;
  mag_valid : Z;
  mX : Z; mY : Z; mZ : Z;
  env_valid : Z;
  temp : Z;
  press : Z;
  humid : Z;
  temp_cam_left : Z;
  temp_cam_right : Z
}.

(** ** Header constants.
    [F] is the C++ type of the scaled sensor values, [TS] the type of the
    stored timestamps.  [ts_mul raw] is the C++ value of [raw*TS_SCALE],
    [fmul raw SCALE] the C++ value of [raw*SCALE].  [overlay buf] is the
    reinterpretation [(SensData* )buf] of the HID report buffer. *)
Record SensHeader (F TS : Type) := {
  REP_ID_SENSOR_DATA : Z;
  sizeof_SensData : Z;
  MAG_NEW_VAL : Z;
  ENV_NEW_VAL : Z;
  TEMP_NOT_VALID : Z;
  ts_mul : Z -> TS;
  fmul : Z -> F -> F;
  ACC_SCALE : F;
  GYRO_SCALE : F;
  TEMP_SCALE : F;
  MAG_SCALE : F;
  PRESS_SCALE_NEW : F;
  HUMID_SCALE_NEW : F;
  overlay : list Z -> SensData
}.
Arguments REP_ID_SENSOR_DATA {F TS}.
Arguments sizeof_SensData {F TS}.
Arguments MAG_NEW_VAL {F TS}.
Arguments ENV_NEW_VAL {F TS}.
Arguments TEMP_NOT_VALID {F TS}.
Arguments ts_mul {F TS}.
Arguments fmul {F TS}.
Arguments ACC_SCALE {F TS}.
Arguments GYRO_SCALE {F TS}.
Arguments TEMP_SCALE {F TS}.
Arguments MAG_SCALE {F TS}.
Arguments PRESS_SCALE_NEW {F TS}.
Arguments HUMID_SCALE_NEW {F TS}.
Arguments overlay {F TS}.

(** ** The stored samples ([mLastIMUData], [mLastMAGData], [mLastENVData],
    [mLastCamTempData]). *)
Module IMU.
Record t (F TS : Type) := {
  valid : bool;
  timestamp : TS;
  aX : F; aY : F; aZ : F;
  gX : F; gY : F; gZ : F;
  temp : F
}.
Arguments valid {F TS}.
Arguments timestamp {F TS}.
Arguments aX {F TS}. Arguments aY {F TS}. Arguments aZ {F TS}.
Arguments gX {F TS}. Arguments gY {F TS}. Arguments gZ {F TS}.
Arguments temp {F TS}.
(** [x.valid = v] *)
Definition set_valid {F TS} (v : bool) (x : t F TS) : t F TS :=
  {| valid := v; timestamp := timestamp x;
     aX := aX x; aY := aY x; aZ := aZ x;
     gX := gX x; gY := gY x; gZ := gZ x; temp := temp x |}.
End IMU.

Module MAG.
(** [valid] holds a [MAG::MagStatus] code. *)
Record t (F TS : Type) := {
  valid : Z;
  timestamp : TS;
  mX : F; mY : F; mZ : F
}.
Arguments valid {F TS}.
Arguments timestamp {F TS}.
Arguments mX {F TS}. Arguments mY {F TS}. Arguments mZ {F TS}.
End MAG.

Module ENV.
(** [valid] holds an [ENV::EnvStatus] code. *)
Record t (F TS : Type) := {
  valid : Z;
  timestamp : TS;
  temp : F;
  press : F;
  humid : F
}.
Arguments valid {F TS}.
Arguments timestamp {F TS}.
Arguments temp {F TS}. Arguments press {F TS}. Arguments humid {F TS}.
End ENV.

Module CamTemp.
Record t (F TS : Type) := {
  valid : bool;
  timestamp : TS;
  temp_left : F;
  temp_right : F
}.
Arguments valid {F TS}.
Arguments timestamp {F TS}.
Arguments temp_left {F TS}. Arguments temp_right {F TS}.
(** [x.valid = v] *)
Definition set_valid {F TS} (v : bool) (x : t F TS) : t F TS :=
  {| valid := v; timestamp := timestamp x;
     temp_left := temp_left x; temp_right := temp_right x |}.
End CamTemp.

(** The sample fields of the [SensorCapture] object. *)
Record SampleStore (F TS : Type) := {
  mLastIMUData : IMU.t F TS;
  mLastMAGData : MAG.t F TS;
  mLastENVData : ENV.t F TS;
  mLastCamTempData : CamTemp.t F TS
}.
Arguments mLastIMUData {F TS}.
Arguments mLastMAGData {F TS}.
Arguments mLastENVData {F TS}.
Arguments mLastCamTempData {F TS}.

Section Decode.
Context {F TS : Type} (h : SensHeader F TS).

Definition set_imu (x : IMU.t F TS) (s : SampleStore F TS) : SampleStore F TS :=
  {| mLastIMUData := x; mLastMAGData := mLastMAGData s;
     mLastENVData := mLastENVData s; mLastCamTempData := mLastCamTempData s |}.
Definition set_mag (x : MAG.t F TS) (s : SampleStore F TS) : SampleStore F TS :=
  {| mLastIMUData := mLastIMUData s; mLastMAGData := x;
     mLastENVData := mLastENVData s; mLastCamTempData := mLastCamTempData s |}.
Definition set_env (x : ENV.t F TS) (s : SampleStore F TS) : SampleStore F TS :=
  {| mLastIMUData := mLastIMUData s; mLastMAGData := mLastMAGData s;
     mLastENVData := x; mLastCamTempData := mLastCamTempData s |}.
Definition set_cam (x : CamTemp.t F TS) (s : SampleStore F TS) : SampleStore F TS :=
  {| mLastIMUData := mLastIMUData s; mLastMAGData := mLastMAGData s;
     mLastENVData := mLastENVData s; mLastCamTempData := x |}.

(** [bool] conversion of [static_cast<MAG::MagStatus>(v)]: nonzero is true. *)
Definition status_to_bool (v : Z) : bool := negb (v =? 0).

(** ----> IMU data (lines 273-286): every field is overwritten. *)
Definition imu_part (data : SensData) (s : SampleStore F TS) : SampleStore F TS :=
  set_imu {| IMU.valid := negb (imu_not_valid data =? 1);
             IMU.timestamp := ts_mul h (timestamp data);
             IMU.aX := fmul h (aX data) (ACC_SCALE h);
             IMU.aY := fmul h (aY data) (ACC_SCALE h);
             IMU.aZ := fmul h (aZ data) (ACC_SCALE h);
             IMU.gX := fmul h (gX data) (GYRO_SCALE h);
             IMU.gY := fmul h (gY data) (GYRO_SCALE h);
             IMU.gZ := fmul h (gZ data) (GYRO_SCALE h);
             IMU.temp := fmul h (imu_temp data) (TEMP_SCALE h) |} s.

(** ----> Magnetometer data (lines 288-304).  The else branch writes
    [mLastIMUData.valid], as the source does. *)
Definition mag_part (data : SensData) (s : SampleStore F TS) : SampleStore F TS :=
  if mag_valid data =? MAG_NEW_VAL h then
    set_mag {| MAG.valid := MAG_NEW_VAL h;
               MAG.timestamp := ts_mul h (timestamp data);
               MAG.mX := fmul h (mX data) (MAG_SCALE h);
               MAG.mY := fmul h (mY data) (MAG_SCALE h);
               MAG.mZ := fmul h (mZ data) (MAG_SCALE h) |} s
  else
    set_imu (IMU.set_valid (status_to_bool (mag_valid data)) (mLastIMUData s)) s.

(** ----> Environmental data (lines 306-322).  The else branch writes
    [mLastIMUData.valid] from [data->mag_valid], as the source does. *)
Definition env_part (data : SensData) (s : SampleStore F TS) : SampleStore F TS :=
  if env_valid data =? ENV_NEW_VAL h then
    set_env {| ENV.valid := ENV_NEW_VAL h;
               ENV.timestamp := ts_mul h (timestamp data);
               ENV.temp := fmul h (temp data) (TEMP_SCALE h);
               ENV.press := fmul h (press data) (PRESS_SCALE_NEW h);
               ENV.humid := fmul h (humid data) (HUMID_SCALE_NEW h) |} s
  else
    set_imu (IMU.set_valid (status_to_bool (mag_valid data)) (mLastIMUData s)) s.

(** ----> Camera sensors temperature data (lines 324-341).  The
    condition tests [temp_cam_left] twice, as the source does. *)
Definition cam_part (data : SensData) (s : SampleStore F TS) : SampleStore F TS :=
  if negb (temp_cam_left data =? TEMP_NOT_VALID h) &&
     negb (temp_cam_left data =? TEMP_NOT_VALID h) &&
     (env_valid data =? ENV_NEW_VAL h) then
    set_cam {| CamTemp.valid := true;
               CamTemp.timestamp := ts_mul h (timestamp data);
               CamTemp.temp_left := fmul h (temp_cam_left data) (TEMP_SCALE h);
               CamTemp.temp_right := fmul h (temp_cam_right data) (TEMP_SCALE h) |} s
  else
    set_cam (CamTemp.set_valid false (mLastCamTempData s)) s.

(** The sample update of one correctly sized and tagged report. *)
Definition sens_update (data : SensData) (s : SampleStore F TS) : SampleStore F TS :=
  cam_part data (env_part data (mag_part data (imu_part data s))).
End Decode.

(** ** Observable effects: the calls the code makes on the HID transport
    and on its own helpers. *)
Inductive event :=
| EvHidInit                        (* hid_init() *)
| EvHidEnumerate                   (* hid_enumerate(SL_USB_VENDOR, 0) *)
| EvHidOpen (pid : Z) (sn : string) (* hid_open(SL_USB_VENDOR, pid, sn) *)
| EvSendStreamStatus (flag : Z)    (* feature report {REP_ID_SENSOR_STREAM_STATUS, flag} *)
| EvSendPing                       (* a call of sendPing() *)
| EvSetNonblocking                 (* hid_set_nonblocking(h, 0) *)
| EvThreadStart                    (* std::thread(&grabThreadFunc, this) *)
| EvJoin                           (* mGrabThread.join() *)
| EvHidClose.                      (* hid_close(h) *)

(** ** One iteration of the [while (!mStopCapture)] loop of
    [grabThreadFunc] (lines 239-341). *)

(** What [hid_read_timeout(mDevHandle, buf, 64, 500)] gives back: its
    return value and the contents of [buf] afterwards (0 on timeout,
    -1 on error). *)
Record ReadResult := { rd_res : Z; rd_buf : list Z }.

(** The state of the thread body: the local [ping_data_count] and the
    sample fields it writes. *)
Record LoopState (F TS : Type) := {
  ping_data_count : Z;
  store : SampleStore F TS
}.
Arguments ping_data_count {F TS}.
Arguments store {F TS}.

Section Loop.
Context {F TS : Type} (h : SensHeader F TS).

(** ----> Keep data stream alive (lines 239-246). *)
Definition keep_alive (cnt : Z) : Z * list event :=
  let '(cnt, evs) := if 400 <=? cnt then (0, [EvSendPing]) else (cnt, []) in
  (cnt + 1, evs).

(** The flags [mGrabRunning] and [mNewData] and the write [buf[1]=1]
    before the read touch no sample and are left out; the verbose warning on
    a tag mismatch is a log line only. *)
Definition grab_iter (rd : ReadResult) (ls : LoopState F TS)
  : LoopState F TS * list event :=
  let '(cnt, evs) := keep_alive (ping_data_count ls) in
  if rd_res rd <? sizeof_SensData h then
    ({| ping_data_count := cnt; store := store ls |}, evs ++ [EvSetNonblocking])
  else if negb (nth 0 (rd_buf rd) 0 =? REP_ID_SENSOR_DATA h) then
    ({| ping_data_count := cnt; store := store ls |}, evs ++ [EvSetNonblocking])
  else
    ({| ping_data_count := cnt;
        store := sens_update h (overlay h (rd_buf rd)) (store ls) |}, evs).

(** The loop run over the successive reads of its iterations. *)
Fixpoint grab_loop (rds : list ReadResult) (ls : LoopState F TS)
  : LoopState F TS * list event :=
  match rds with
  | [] => (ls, [])
  | rd :: rest =>
      let '(ls1, e1) := grab_iter rd ls in
      let '(ls2, e2) := grab_loop rest ls1 in
      (ls2, e1 ++ e2)
  end.

(** [int ping_data_count = 0;] *)
Definition grab_thread (rds : list ReadResult) (s : SampleStore F TS)
  : LoopState F TS * list event :=
  grab_loop rds {| ping_data_count := 0; store := s |}.
End Loop.

Definition is_ping (e : event) : bool :=
  match e with EvSendPing => true | _ => false end.

Definition count_pings (evs : list event) : nat :=
  List.length (filter is_ping evs).

(** ** A concrete header, used to run the code on explicit inputs.  Values
    are integers and each [SensData] field occupies one cell of the buffer;
    the theorems hold for every header. *)
Definition demo_overlay (buf : list Z) : SensData :=
  let at_ i := nth i buf 0 in
  {| struct_id := at_ 0%nat; imu_not_valid := at_ 1%nat; timestamp := at_ 2%nat;
     gX := at_ 3%nat; gY := at_ 4%nat; gZ := at_ 5%nat;
     aX := at_ 6%nat; aY := at_ 7%nat; aZ := at_ 8%nat;
     imu_temp := at_ 9%nat; mag_valid := at_ 10%nat;
     mX := at_ 11%nat; mY := at_ 12%nat; mZ := at_ 13%nat;
     env_valid := at_ 14%nat; temp := at_ 15%nat; press := at_ 16%nat;
     humid := at_ 17%nat; temp_cam_left := at_ 18%nat; temp_cam_right := at_ 19%nat |}.

Definition demo_header : SensHeader Z Z :=
  {| REP_ID_SENSOR_DATA := 1;
     sizeof_SensData := 20;
     MAG_NEW_VAL := 2;
     ENV_NEW_VAL := 2;
     TEMP_NOT_VALID := -27315;
     ts_mul := fun r => r * 39;
     fmul := Z.mul;
     ACC_SCALE := 2; GYRO_SCALE := 3; TEMP_SCALE := 5;
     MAG_SCALE := 7; PRESS_SCALE_NEW := 11; HUMID_SCALE_NEW := 13;
     overlay := demo_overlay |}.

(** The samples as constructed: [valid=false], status 0 (no new data). *)
Definition demo_store : SampleStore Z Z :=
  {| mLastIMUData := {| IMU.valid := false; IMU.timestamp := 0;
                        IMU.aX := 0; IMU.aY := 0; IMU.aZ := 0;
                        IMU.gX := 0; IMU.gY := 0; IMU.gZ := 0; IMU.temp := 0 |};
     mLastMAGData := {| MAG.valid := 0; MAG.timestamp := 0;
                        MAG.mX := 0; MAG.mY := 0; MAG.mZ := 0 |};
     mLastENVData := {| ENV.valid := 0; ENV.timestamp := 0;
                        ENV.temp := 0; ENV.press := 0; ENV.humid := 0 |};
     mLastCamTempData := {| CamTemp.valid := false; CamTemp.timestamp := 0;
                            CamTemp.temp_left := 0; CamTemp.temp_right := 0 |} |}.

(** A raw frame with every field given. *)
Definition mk_frame (imu_nv ts ax ay az gx gy gz it mv mx my mz ev t p hu tl tr : Z)
  : SensData :=
  {| struct_id := 1; imu_not_valid := imu_nv; timestamp := ts;
     gX := gx; gY := gy; gZ := gz; aX := ax; aY := ay; aZ := az;
     imu_temp := it; mag_valid := mv; mX := mx; mY := my; mZ := mz;
     env_valid := ev; temp := t; press := p; humid := hu;
     temp_cam_left := tl; temp_cam_right := tr |}.

(** ** The device registry [std::map<int,uint16_t> mSlDevPid]: an
    association list kept sorted by key, as the ordered map iterates. *)
Definition DevMap := list (Z * Z).

(** [m[k] = v] *)
Fixpoint map_set (k v : Z) (m : DevMap) : DevMap :=
  match m with
  | [] => [(k, v)]
  | (k', v') :: t =>
      if k <? k' then (k, v) :: m
      else if k =? k' then (k, v) :: t
      else (k', v') :: map_set k v t
  end.

Fixpoint map_find (k : Z) (m : DevMap) : option Z :=
  match m with
  | [] => None
  | (k', v') :: t => if k =? k' then Some v' else map_find k t
  end.

(** [m[k]] as an rvalue: inserts a value-initialised entry when absent. *)
Definition map_index (k : Z) (m : DevMap) : Z * DevMap :=
  match map_find k m with
  | Some v => (v, m)
  | None => (0, map_set k 0 m)
  end.

Definition map_sorted (m : DevMap) : Prop :=
  Sorted (fun a b => fst a < fst b) m.

(** ** [std::stoi]: leading white space, an optional sign, decimal digits;
    [std::invalid_argument] without digits, [std::out_of_range] outside
    the range of [int]. *)
Inductive exn := InvalidArgument | OutOfRange | Terminate.

Inductive outcome (A : Type) := Ret (a : A) | Raise (e : exn).
Arguments Ret {A}.
Arguments Raise {A}.

Definition is_space (c : ascii) : bool :=
  let n := nat_of_ascii c in (n =? 32)%nat || ((9 <=? n)%nat && (n <=? 13)%nat).

Definition digit_val (c : ascii) : option Z :=
  let n := nat_of_ascii c in
  if ((48 <=? n)%nat && (n <=? 57)%nat) then Some (Z.of_nat n - 48) else None.

Fixpoint skip_ws (s : string) : string :=
  match s with
  | String c r => if is_space c then skip_ws r else s
  | EmptyString => s
  end.

(** Accumulates the leading digits; the flag tells whether there was one. *)
Fixpoint read_digits (s : string) (acc : Z) (any : bool) : Z * bool :=
  match s with
  | String c r =>
      match digit_val c with
      | Some d => read_digits r (acc * 10 + d) true
      | None => (acc, any)
      end
  | EmptyString => (acc, any)
  end.

Definition INT_MIN : Z := - 2 ^ 31.
Definition INT_MAX : Z := 2 ^ 31 - 1.

Definition stoi (s : string) : outcome Z :=
  let s := skip_ws s in
  let '(neg, s) :=
    match s with
    | String "-" r => (true, r)
    | String "+" r => (false, r)
    | _ => (false, s)
    end in
  let '(v, any) := read_digits s 0 false in
  if negb any then Raise InvalidArgument
  else
    let v := if neg then - v else v in
    if (v <? INT_MIN) || (INT_MAX <? v) then Raise OutOfRange else Ret v.

(** [std::to_string(int)]. *)
Fixpoint digits_rev (fuel : nat) (n : Z) (acc : string) : string :=
  match fuel with
  | O => acc
  | S f =>
      let acc := String (ascii_of_nat (48 + Z.to_nat (n mod 10))) acc in
      if n / 10 =? 0 then acc else digits_rev f (n / 10) acc
  end.

(** The character of a decimal digit, as [digits_rev] writes it. *)
Definition chr (d : Z) : ascii := ascii_of_nat (48 + Z.to_nat d).

Definition to_string (z : Z) : string :=
  if z <? 0 then String "-" (digits_rev 20 (- z) EmptyString)
  else digits_rev 20 z EmptyString.

(** ** The HID transport, as seen by the driver. *)
Record hid_device_info := {
  product_id : Z;
  serial_number : string;
  release_number : Z
}.

Record Transport := {
  hid_init_ok : bool;                     (* hid_init() != -1 *)
  hid_devices : list hid_device_info;     (* hid_enumerate(SL_USB_VENDOR, 0) *)
  hid_open_ok : Z -> string -> bool;      (* hid_open(SL_USB_VENDOR, pid, sn) != NULL *)
  feature_ok : bool                       (* hid_send_feature_report(...) >= 0 *)
}.

(** ** The session fields of [SensorCapture]. [mDevHandle] is [Some (pid, sn)]
    for the device opened with that product id and serial string. *)
Record Session := {
  mSlDevPid : DevMap;
  mDevHandle : option (Z * string);
  mGrabThread_joinable : bool;
  mStopCapture : bool;
  mInitialized : bool
}.

Definition with_map (m : DevMap) (st : Session) : Session :=
  {| mSlDevPid := m; mDevHandle := mDevHandle st;
     mGrabThread_joinable := mGrabThread_joinable st;
     mStopCapture := mStopCapture st; mInitialized := mInitialized st |}.
Definition with_handle (hd : option (Z * string)) (st : Session) : Session :=
  {| mSlDevPid := mSlDevPid st; mDevHandle := hd;
     mGrabThread_joinable := mGrabThread_joinable st;
     mStopCapture := mStopCapture st; mInitialized := mInitialized st |}.
Definition with_joinable (b : bool) (st : Session) : Session :=
  {| mSlDevPid := mSlDevPid st; mDevHandle := mDevHandle st;
     mGrabThread_joinable := b;
     mStopCapture := mStopCapture st; mInitialized := mInitialized st |}.
Definition with_stop (b : bool) (st : Session) : Session :=
  {| mSlDevPid := mSlDevPid st; mDevHandle := mDevHandle st;
     mGrabThread_joinable := mGrabThread_joinable st;
     mStopCapture := b; mInitialized := mInitialized st |}.
Definition with_initialized (b : bool) (st : Session) : Session :=
  {| mSlDevPid := mSlDevPid st; mDevHandle := mDevHandle st;
     mGrabThread_joinable := mGrabThread_joinable st;
     mStopCapture := mStopCapture st; mInitialized := b |}.

(** The body of [while (cur_dev)] in [enumerateDevices] (lines 28-54):
    [int sn = std::stoi(sn_str); mSlDevPid[sn] = pid;]. *)
Fixpoint enum_loop (devs : list hid_device_info) (m : DevMap) : outcome unit * DevMap :=
  match devs with
  | [] => (Ret tt, m)
  | d :: rest =>
      match stoi (serial_number d) with
      | Raise e => (Raise e, m)
      | Ret sn => enum_loop rest (map_set sn (product_id d) m)
      end
  end.

(** [SensorCapture::enumerateDevices] (lines 17-59). *)
Definition enumerateDevices (t : Transport) (st : Session)
  : outcome Z * Session * list event :=
  let st := with_map [] st in
  if negb (hid_init_ok t) then (Ret 0, st, [EvHidInit])
  else
    let '(r, m) := enum_loop (hid_devices t) [] in
    let st := with_map m st in
    match r with
    | Raise e => (Raise e, st, [EvHidInit; EvHidEnumerate])
    | Ret _ => (Ret (Z.of_nat (List.length m)), st, [EvHidInit; EvHidEnumerate])
    end.

(** [SensorCapture::enableDataStream] (lines 129-150). *)
Definition enableDataStream (t : Transport) (enable : bool) (st : Session)
  : bool * list event :=
  match mDevHandle st with
  | None => (false, [])
  | Some _ => (feature_ok t, [EvSendStreamStatus (if enable then 1 else 0)])
  end.

(** [SensorCapture::startCapture] (lines 188-198).  Move-assigning to a
    [std::thread] that is still joinable calls [std::terminate]. *)
Definition startCapture (t : Transport) (st : Session)
  : outcome bool * Session * list event :=
  let '(ok, evs) := enableDataStream t true st in
  if negb ok then (Ret false, st, evs)
  else if mGrabThread_joinable st then (Raise Terminate, st, evs ++ [EvThreadStart])
  else (Ret true, with_joinable true st, evs ++ [EvThreadStart]).

(** Lines 98-126 of [init]: open serial [sn] and start the capture. *)
Definition open_sn (t : Transport) (sn : Z) (st : Session)
  : outcome bool * Session * list event :=
  let sn_str := to_string sn in
  let '(pid, m) := map_index sn (mSlDevPid st) in
  let st := with_map m st in
  let ev_open := [EvHidOpen pid sn_str] in
  if negb (hid_open_ok t pid sn_str) then (Ret false, with_handle None st, ev_open)
  else
    let st := with_handle (Some (pid, sn_str)) st in
    match startCapture t st with
    | (Raise e, st, evs) => (Raise e, st, ev_open ++ evs)
    | (Ret ok, st, evs) => (Ret true, with_initialized ok st, ev_open ++ evs)
    end.

(** [SensorCapture::init] (lines 75-127); [sn = -1] asks for the default
    device. *)
Definition init (t : Transport) (sn : Z) (st : Session)
  : outcome bool * Session * list event :=
  if negb (sn =? -1) then open_sn t sn st
  else
    let '(r, st, evs) :=
      match mSlDevPid st with
      | [] => enumerateDevices t st
      | _ => (Ret 0, st, [])
      end in
    match r with
    | Raise e => (Raise e, st, evs)
    | Ret _ =>
        match mSlDevPid st with
        | [] => (Ret false, st, evs)
        | (k, _) :: _ =>
            let '(r, st, evs') := open_sn t k st in (r, st, evs ++ evs')
        end
    end.

(** [SensorCapture::reset] (lines 200-223), the [close] of the session.
    The join is taken to return: this describes the runs where the capture
    thread ends.  It need not: a thread that only starts after
    [mStopCapture = true] resets the flag to [false] (line 228) and never
    leaves its loop, and then [reset] blocks in [join] and makes none of
    the later calls. *)
Definition reset (t : Transport) (st : Session) : Session * list event :=
  let st := with_stop true st in
  let ev_join := if mGrabThread_joinable st then [EvJoin] else [] in
  let st := with_joinable false st in
  let '(_, ev_dis) := enableDataStream t false st in
  let '(st, ev_close) :=
    match mDevHandle st with
    | Some _ => (with_handle None st, [EvHidClose])
    | None => (st, [])
    end in
  (with_initialized false st, ev_join ++ ev_dis ++ ev_close).

(** The [hid_open] calls among the effects. *)
Fixpoint opens (evs : list event) : list (Z * string) :=
  match evs with
  | [] => []
  | EvHidOpen pid sn :: r => (pid, sn) :: opens r
  | _ :: r => opens r
  end.


Definition closed_session (m : DevMap) : Session :=
  {| mSlDevPid := m; mDevHandle := None; mGrabThread_joinable := false;
     mStopCapture := false; mInitialized := false |}.

Definition demo_transport (devs : list hid_device_info) (feat : bool) : Transport :=
  {| hid_init_ok := true; hid_devices := devs;
     hid_open_ok := fun _ _ => true; feature_ok := feat |}.

Example to_string_1001 : to_string 1001 = "1001"%string.
Proof. reflexivity. Qed.
Example stoi_abc : stoi "abc" = Raise InvalidArgument.
Proof. reflexivity. Qed.
Example stoi_ws : stoi " -12x" = Ret (-12).
Proof. reflexivity. Qed.
Example init_demo :
  init (demo_transport [{| product_id := 7; serial_number := "1002"; release_number := 0 |};
                        {| product_id := 5; serial_number := "1001"; release_number := 0 |}] true)
       (-1) (closed_session [])
  = (Ret true,
     {| mSlDevPid := [(1001, 5); (1002, 7)]; mDevHandle := Some (5, "1001"%string);
        mGrabThread_joinable := true; mStopCapture := false; mInitialized := true |},
     [EvHidInit; EvHidEnumerate; EvHidOpen 5 "1001"; EvSendStreamStatus 1; EvThreadStart]).
Proof. reflexivity. Qed.

(** [SensorCapture::getDeviceList] (lines 61-73): enumerates when the
    registry is empty, then lists its keys in the map's order. *)
Definition getDeviceList (t : Transport) (st : Session)
  : outcome (list Z) * Session * list event :=
  let '(r, st, evs) :=
    match mSlDevPid st with
    | [] => enumerateDevices t st
    | _ => (Ret 0, st, [])
    end in
  match r with
  | Raise e => (Raise e, st, evs)
  | Ret _ => (Ret (map fst (mSlDevPid st)), st, evs)
  end.

(** Header constants of the stream-status feature report. *)
Record StreamHeader := {
  REP_ID_SENSOR_STREAM_STATUS : Z;
  sizeof_SensStreamStatus : Z
}.

(** The two bytes [enableDataStream] sends (lines 133-134). *)
Definition stream_status_payload (sh : StreamHeader) (enable : bool) : list Z :=
  [REP_ID_SENSOR_STREAM_STATUS sh; if enable then 1 else 0].

(** What [hid_get_feature_report(mDevHandle, buf, sizeof(buf))] gives back:
    its return value and the contents of [buf] afterwards. *)
Record FeatureReply := { fr_res : Z; fr_buf : list Z }.

(** [SensorCapture::isDataStreamEnabled] (lines 152-186); the warnings are
    log lines only. *)
Definition isDataStreamEnabled (sh : StreamHeader) (reply : FeatureReply) (st : Session)
  : bool :=
  match mDevHandle st with
  | None => false
  | Some _ =>
      if fr_res reply <? 0 then false
      else if fr_res reply <? sizeof_SensStreamStatus sh then false
      else if negb (nth 0 (fr_buf reply) 0 =? REP_ID_SENSOR_STREAM_STATUS sh) then false
      else nth 1 (fr_buf reply) 0 =? 1
  end.

(** A report passes the size and tag checks of [grabThreadFunc]. *)
Definition accepted {F TS} (h : SensHeader F TS) (rd : ReadResult) : bool :=
  (sizeof_SensData h <=? rd_res rd) && (nth 0 (rd_buf rd) 0 =? REP_ID_SENSOR_DATA h).

(** The magnetometer sample a NewValue frame stores (lines 291-295). *)
Definition mag_of {F TS} (h : SensHeader F TS) (d : SensData) : MAG.t F TS :=
  {| MAG.valid := MAG_NEW_VAL h; MAG.timestamp := ts_mul h (timestamp d);
     MAG.mX := fmul h (mX d) (MAG_SCALE h); MAG.mY := fmul h (mY d) (MAG_SCALE h);
     MAG.mZ := fmul h (mZ d) (MAG_SCALE h) |}.

(** The environmental sample a NewValue frame stores (lines 309-313). *)
Definition env_of {F TS} (h : SensHeader F TS) (d : SensData) : ENV.t F TS :=
  {| ENV.valid := ENV_NEW_VAL h; ENV.timestamp := ts_mul h (timestamp d);
     ENV.temp := fmul h (temp d) (TEMP_SCALE h);
     ENV.press := fmul h (press d) (PRESS_SCALE_NEW h);
     ENV.humid := fmul h (humid d) (HUMID_SCALE_NEW h) |}.

(** The last accepted frame of a run satisfying [p], if any. *)
Definition last_frame {F TS} (h : SensHeader F TS) (p : SensData -> bool)
    (rds : list ReadResult) (acc : option SensData) : option SensData :=
  fold_left (fun acc rd =>
    if accepted h rd && p (overlay h (rd_buf rd)) then Some (overlay h (rd_buf rd)) else acc)
    rds acc.

(** The pid of the last listed device whose serial parses to [k]. *)
Definition last_pid (devs : list hid_device_info) (k : Z) (acc : option Z) : option Z :=
  fold_left (fun acc d =>
    match stoi (serial_number d) with
    | Ret sn => if sn =? k then Some (product_id d) else acc
    | Raise _ => acc
    end) devs acc.

(** The [hid_set_nonblocking] calls among the effects. *)
Definition is_nonblocking (e : event) : bool :=
  match e with EvSetNonblocking => true | _ => false end.

Definition count_nonblocking (evs : list event) : nat :=
  List.length (filter is_nonblocking evs).

(** The samples after a run, read off the accepted reports in order. *)
Definition loop_store {F TS} (h : SensHeader F TS) (rds : list ReadResult)
    (s : SampleStore F TS) : SampleStore F TS :=
  fold_left (fun s rd =>
    if accepted h rd then sens_update h (overlay h (rd_buf rd)) s else s) rds s.


(** * Properties *)

(** The stored IMU sample without its [valid] flag. *)
Definition imu_payload {F TS} (x : IMU.t F TS) : TS * (F * F * F) * (F * F * F) * F :=
  (IMU.timestamp x, (IMU.aX x, IMU.aY x, IMU.aZ x),
   (IMU.gX x, IMU.gY x, IMU.gZ x), IMU.temp x).

(** The IMU payload the code computes from a frame. *)
Definition scaled_imu {F TS} (h : SensHeader F TS) (d : SensData)
  : TS * (F * F * F) * (F * F * F) * F :=
  (ts_mul h (timestamp d),
   (fmul h (aX d) (ACC_SCALE h), fmul h (aY d) (ACC_SCALE h), fmul h (aZ d) (ACC_SCALE h)),
   (fmul h (gX d) (GYRO_SCALE h), fmul h (gY d) (GYRO_SCALE h), fmul h (gZ d) (GYRO_SCALE h)),
   fmul h (imu_temp d) (TEMP_SCALE h)).

Section DecodeFacts.
Context {F TS : Type} (h : SensHeader F TS).

Lemma mag_part_imu_payload d s :
  imu_payload (mLastIMUData (mag_part h d s)) = imu_payload (mLastIMUData s).
Proof. unfold mag_part; destruct (_ =? _); reflexivity. Qed.

Lemma env_part_imu_payload d s :
  imu_payload (mLastIMUData (env_part h d s)) = imu_payload (mLastIMUData s).
Proof. unfold env_part; destruct (_ =? _); reflexivity. Qed.

Lemma cam_part_imu (d : SensData) s :
  mLastIMUData (cam_part h d s) = mLastIMUData s.
Proof. unfold cam_part; destruct (_ && _); reflexivity. Qed.

Lemma sens_update_imu_payload d s :
  imu_payload (mLastIMUData (sens_update h d s)) = scaled_imu h d.
Proof.
  unfold sens_update. rewrite cam_part_imu, env_part_imu_payload,
    mag_part_imu_payload. reflexivity.
Qed.

Lemma sens_update_mag_not_new d s :
  mag_valid d <> MAG_NEW_VAL h ->
  mLastMAGData (sens_update h d s) = mLastMAGData s.
Proof.
  intros Hm. unfold sens_update, cam_part, env_part, mag_part.
  rewrite (proj2 (Z.eqb_neq _ _) Hm).
  destruct (env_valid d =? ENV_NEW_VAL h); simpl;
    destruct (_ && _); reflexivity.
Qed.

Lemma sens_update_env_not_new d s :
  env_valid d <> ENV_NEW_VAL h ->
  mLastENVData (sens_update h d s) = mLastENVData s.
Proof.
  intros He. unfold sens_update, cam_part, env_part.
  rewrite (proj2 (Z.eqb_neq _ _) He).
  rewrite andb_false_r. simpl.
  unfold mag_part. destruct (_ =? _); reflexivity.
Qed.

(** The camera-temperature flag ignores [temp_cam_right]. *)
Lemma sens_update_cam_valid d s :
  CamTemp.valid (mLastCamTempData (sens_update h d s))
  = negb (temp_cam_left d =? TEMP_NOT_VALID h) && (env_valid d =? ENV_NEW_VAL h).
Proof.
  unfold sens_update, cam_part.
  destruct (temp_cam_left d =? TEMP_NOT_VALID h), (env_valid d =? ENV_NEW_VAL h);
    reflexivity.
Qed.
End DecodeFacts.

(** A frame from the demo header, every field given by position. *)
Definition frame_buf (d : SensData) : list Z :=
  [struct_id d; imu_not_valid d; timestamp d; gX d; gY d; gZ d; aX d; aY d; aZ d;
   imu_temp d; mag_valid d; mX d; mY d; mZ d; env_valid d; temp d; press d;
   humid d; temp_cam_left d; temp_cam_right d].

(** The store after a first frame where every channel reported NewValue (2). *)
Definition store_after_new : SampleStore Z Z :=
  sens_update demo_header
    (mk_frame 0 100 1 2 3 4 5 6 30 2 8 9 10 2 21 1000 40 2500 2600) demo_store.

(** ** C1 (code_bug): a frame with magnetometer status [OLD_VAL] (1) and
    environmental status 1, after a frame where both reported NewValue (2):
    the stored MagSample and EnvSample keep status 2, they do not take the
    frame's status 1; [mLastIMUData.valid] is written instead. *)
Theorem C1_status_not_propagated :
  let s' := sens_update demo_header
              (mk_frame 0 101 1 2 3 4 5 6 30 1 8 9 10 1 21 1000 40 2500 2600)
              store_after_new in
  MAG.valid (mLastMAGData store_after_new) = 2 /\
  MAG.valid (mLastMAGData s') = 2 /\
  ENV.valid (mLastENVData store_after_new) = 2 /\
  ENV.valid (mLastENVData s') = 2 /\
  mLastMAGData s' = mLastMAGData store_after_new /\
  mLastENVData s' = mLastENVData store_after_new.
Proof. vm_compute. repeat split. Qed.

(** ** C3 (code_bug): a frame whose left camera temperature is present,
    whose right one is the sentinel [TEMP_NOT_VALID] and whose environmental
    status is NewValue is stored as a valid camera-temperature sample. *)
Theorem C3_right_sentinel_accepted :
  let d := mk_frame 0 100 1 2 3 4 5 6 30 2 8 9 10 2 21 1000 40 2500 (-27315) in
  temp_cam_right d = TEMP_NOT_VALID demo_header /\
  CamTemp.valid (mLastCamTempData (sens_update demo_header d demo_store)) = true.
Proof. split; reflexivity. Qed.

(** ** C9: for every frame whose IMU validity byte is not "not valid" (1),
    decoding stores the timestamp as [raw*TS_SCALE], the accelerations as
    [raw*ACC_SCALE], the angular rates as [raw*GYRO_SCALE] and the IMU
    temperature as [raw*TEMP_SCALE]. *)
Theorem C9_imu_scaling {F TS} (h : SensHeader F TS) (d : SensData) (s : SampleStore F TS) :
  imu_not_valid d <> 1 ->
  let x := mLastIMUData (sens_update h d s) in
  IMU.timestamp x = ts_mul h (timestamp d) /\
  IMU.aX x = fmul h (aX d) (ACC_SCALE h) /\
  IMU.aY x = fmul h (aY d) (ACC_SCALE h) /\
  IMU.aZ x = fmul h (aZ d) (ACC_SCALE h) /\
  IMU.gX x = fmul h (gX d) (GYRO_SCALE h) /\
  IMU.gY x = fmul h (gY d) (GYRO_SCALE h) /\
  IMU.gZ x = fmul h (gZ d) (GYRO_SCALE h) /\
  IMU.temp x = fmul h (imu_temp d) (TEMP_SCALE h).
Proof.
  intros _ x. pose proof (sens_update_imu_payload h d s) as E.
  unfold imu_payload, scaled_imu in E. fold x in E.
  injection E; intros; repeat split; assumption.
Qed.

Lemma C9_imu_scaling_witness :
  imu_not_valid (mk_frame 0 100 1 2 3 4 5 6 30 2 8 9 10 2 21 1000 40 2500 2600) <> 1 /\
  IMU.aX (mLastIMUData (sens_update demo_header
     (mk_frame 0 100 1 2 3 4 5 6 30 2 8 9 10 2 21 1000 40 2500 2600) demo_store)) = 2.
Proof.
  split.
  - simpl; lia.
  - destruct (C9_imu_scaling demo_header
      (mk_frame 0 100 1 2 3 4 5 6 30 2 8 9 10 2 21 1000 40 2500 2600) demo_store)
      as [_ [Ha _]]; [simpl; lia |].
    rewrite Ha. reflexivity.
Defined.

(** [d] with another IMU validity byte. *)
Definition with_imu_not_valid (v : Z) (d : SensData) : SensData :=
  {| struct_id := struct_id d; imu_not_valid := v; timestamp := timestamp d;
     gX := gX d; gY := gY d; gZ := gZ d; aX := aX d; aY := aY d; aZ := aZ d;
     imu_temp := imu_temp d; mag_valid := mag_valid d;
     mX := mX d; mY := mY d; mZ := mZ d; env_valid := env_valid d;
     temp := temp d; press := press d; humid := humid d;
     temp_cam_left := temp_cam_left d; temp_cam_right := temp_cam_right d |}.

Lemma sens_update_imu_not_valid_only_flag {F TS} (h : SensHeader F TS) d v s :
  let s1 := sens_update h d s in
  let s2 := sens_update h (with_imu_not_valid v d) s in
  imu_payload (mLastIMUData s1) = imu_payload (mLastIMUData s2) /\
  mLastMAGData s1 = mLastMAGData s2 /\
  mLastENVData s1 = mLastENVData s2 /\
  mLastCamTempData s1 = mLastCamTempData s2.
Proof.
  intros s1 s2. subst s1 s2.
  rewrite !sens_update_imu_payload.
  unfold sens_update, cam_part, env_part, mag_part; simpl.
  destruct (mag_valid d =? MAG_NEW_VAL h), (env_valid d =? ENV_NEW_VAL h),
    (temp_cam_left d =? TEMP_NOT_VALID h); simpl; repeat split.
Qed.

Lemma grab_iter_good {F TS} (h : SensHeader F TS) rd ls :
  sizeof_SensData h <= rd_res rd ->
  nth 0 (rd_buf rd) 0 = REP_ID_SENSOR_DATA h ->
  store (fst (grab_iter h rd ls)) = sens_update h (overlay h (rd_buf rd)) (store ls).
Proof.
  intros Hs Ht. unfold grab_iter.
  destruct (keep_alive (ping_data_count ls)) as [cnt evs].
  rewrite (proj2 (Z.ltb_ge _ _) Hs), Ht, Z.eqb_refl. reflexivity.
Qed.

(** ** C10: for every correctly sized, correctly tagged report, the stored
    IMU timestamp, accelerations, angular rates and temperature are the
    frame's scaled values whatever its IMU validity byte (also 1, "not
    valid"); changing that byte changes no stored field other than
    [mLastIMUData.valid]. *)
Theorem C10_imu_always_written {F TS} (h : SensHeader F TS) (rd : ReadResult)
    (ls : LoopState F TS) (v : Z) :
  sizeof_SensData h <= rd_res rd ->
  nth 0 (rd_buf rd) 0 = REP_ID_SENSOR_DATA h ->
  let d := overlay h (rd_buf rd) in
  let s1 := store (fst (grab_iter h rd ls)) in
  let s2 := sens_update h (with_imu_not_valid v d) (store ls) in
  imu_payload (mLastIMUData s1) = scaled_imu h d /\
  imu_payload (mLastIMUData s1) = imu_payload (mLastIMUData s2) /\
  mLastMAGData s1 = mLastMAGData s2 /\
  mLastENVData s1 = mLastENVData s2 /\
  mLastCamTempData s1 = mLastCamTempData s2.
Proof.
  intros Hs Ht d s1 s2. subst s1 s2 d.
  rewrite (grab_iter_good h rd ls Hs Ht).
  split; [apply sens_update_imu_payload |].
  apply sens_update_imu_not_valid_only_flag.
Qed.

(** A correctly sized and tagged report flagged "IMU not valid". *)
Definition rd_imu_not_valid : ReadResult :=
  {| rd_res := 20;
     rd_buf := frame_buf (mk_frame 1 100 1 2 3 4 5 6 30 2 8 9 10 2 21 1000 40 2500 2600) |}.

Lemma C10_imu_always_written_witness :
  sizeof_SensData demo_header <= rd_res rd_imu_not_valid /\
  nth 0 (rd_buf rd_imu_not_valid) 0 = REP_ID_SENSOR_DATA demo_header /\
  imu_payload (mLastIMUData (store (fst (grab_iter demo_header rd_imu_not_valid
      {| ping_data_count := 0; store := demo_store |}))))
  = (3900, (2, 4, 6), (12, 15, 18), 150).
Proof.
  split; [simpl; lia |]. split; [reflexivity |].
  destruct (C10_imu_always_written demo_header rd_imu_not_valid
      {| ping_data_count := 0; store := demo_store |} 0) as [E _];
    [simpl; lia | reflexivity |].
  rewrite E. reflexivity.
Defined.

(** ** C7: an iteration whose read timed out or failed (return value below
    [sizeof(SensData)]) or whose report tag is not [REP_ID_SENSOR_DATA]
    leaves every stored sample as it was; the loop goes on with the keep-alive
    counter advanced as in any iteration. *)
Theorem C7_transient_read_no_update {F TS} (h : SensHeader F TS) (rd : ReadResult)
    (ls : LoopState F TS) :
  rd_res rd < sizeof_SensData h \/ nth 0 (rd_buf rd) 0 <> REP_ID_SENSOR_DATA h ->
  store (fst (grab_iter h rd ls)) = store ls /\
  ping_data_count (fst (grab_iter h rd ls)) = fst (keep_alive (ping_data_count ls)).
Proof.
  intros H. unfold grab_iter.
  destruct (keep_alive (ping_data_count ls)) as [cnt evs] eqn:Ek. simpl.
  destruct (rd_res rd <? sizeof_SensData h) eqn:Es; [split; reflexivity |].
  destruct H as [H | H]; [apply Z.ltb_nlt in Es; lia |].
  rewrite (proj2 (Z.eqb_neq _ _) H). split; reflexivity.
Qed.

(** A report of 10 bytes, shorter than the sensor frame. *)
Definition rd_short : ReadResult :=
  {| rd_res := 10; rd_buf := [1; 0; 100; 4; 5; 6; 1; 2; 3; 30] |}.

Lemma C7_transient_read_no_update_witness :
  (rd_res rd_short < sizeof_SensData demo_header \/
   nth 0 (rd_buf rd_short) 0 <> REP_ID_SENSOR_DATA demo_header) /\
  store (fst (grab_iter demo_header rd_short
     {| ping_data_count := 0; store := store_after_new |})) = store_after_new.
Proof.
  split; [left; simpl; lia |].
  apply (C7_transient_read_no_update demo_header rd_short
     {| ping_data_count := 0; store := store_after_new |}).
  left; simpl; lia.
Defined.

Lemma count_pings_app a b : count_pings (a ++ b) = (count_pings a + count_pings b)%nat.
Proof. unfold count_pings. rewrite filter_app, length_app. reflexivity. Qed.

Lemma grab_iter_pings {F TS} (h : SensHeader F TS) rd ls :
  count_pings (snd (grab_iter h rd ls))
  = (if 400 <=? ping_data_count ls then 1%nat else 0%nat) /\
  ping_data_count (fst (grab_iter h rd ls))
  = (if 400 <=? ping_data_count ls then 1 else ping_data_count ls + 1).
Proof.
  unfold grab_iter, keep_alive.
  destruct (400 <=? ping_data_count ls);
    destruct (rd_res rd <? sizeof_SensData h);
    try destruct (negb _); simpl; split; reflexivity.
Qed.

(** From a counter [c] in [0, 400], [n] iterations send
    [(n + c - 1) / 400] pings and leave the counter at
    [(n + c - 1) mod 400 + 1] (or [c] when [n = 0]). *)
Lemma grab_loop_pings {F TS} (h : SensHeader F TS) rds :
  forall ls, 0 <= ping_data_count ls <= 400 ->
  let n := List.length rds in
  let c := Z.to_nat (ping_data_count ls) in
  count_pings (snd (grab_loop h rds ls)) = ((n + c - 1) / 400)%nat /\
  ping_data_count (fst (grab_loop h rds ls))
  = (if (n =? 0)%nat then ping_data_count ls
     else Z.of_nat ((n + c - 1) mod 400) + 1).
Proof.
  induction rds as [| rd rest IH]; intros ls Hc n c; subst n c.
  - cbn [grab_loop fst snd List.length]. split; [| reflexivity].
    rewrite Nat.div_small by lia. reflexivity.
  - cbn [grab_loop List.length].
    destruct (grab_iter h rd ls) as [ls1 e1] eqn:E1.
    destruct (grab_loop h rest ls1) as [ls2 e2] eqn:E2.
    pose proof (grab_iter_pings h rd ls) as [P C]. rewrite E1 in P, C.
    cbn [fst snd] in P, C.
    assert (Hc1 : 0 <= ping_data_count ls1 <= 400)
      by (rewrite C; destruct (400 <=? ping_data_count ls) eqn:B;
          [lia | apply Z.leb_gt in B; lia]).
    destruct (IH ls1 Hc1) as [IP IC]. rewrite E2 in IP, IC. cbn [fst snd] in IP, IC.
    cbn [fst snd]. rewrite count_pings_app, P, IP, IC, C.
    destruct (400 <=? ping_data_count ls) eqn:B.
    + apply Z.leb_le in B.
      assert (ping_data_count ls = 400) as -> by lia.
      change (Z.to_nat 400) with 400%nat. change (Z.to_nat 1) with 1%nat.
      replace (S (List.length rest) + 400 - 1)%nat
        with (List.length rest + 1 * 400)%nat by lia.
      replace (List.length rest + 1 - 1)%nat with (List.length rest) by lia.
      split.
      * rewrite Nat.div_add by lia. lia.
      * rewrite Nat.Div0.mod_add.
        destruct (List.length rest =? 0)%nat eqn:L; [| reflexivity].
        apply Nat.eqb_eq in L. rewrite L. reflexivity.
    + apply Z.leb_gt in B.
      replace (List.length rest + Z.to_nat (ping_data_count ls + 1) - 1)%nat
        with (S (List.length rest) + Z.to_nat (ping_data_count ls) - 1)%nat by lia.
      split; [reflexivity |].
      destruct (List.length rest =? 0)%nat eqn:L; [| reflexivity].
      apply Nat.eqb_eq in L. rewrite L. cbn [Nat.eqb].
      rewrite Nat.mod_small by lia. lia.
Qed.

(** ** C5 (corrected): a run of [n] iterations of the capture loop calls
    [sendPing] [(n - 1) / 400] times (0 when [n = 0]): the ping comes at the
    start of iterations 401, 801, ..., when the counter has reached 400; the
    counter is then reset to 0 and incremented, so after [n >= 1] iterations
    it holds [(n - 1) mod 400 + 1]. *)
Theorem C5_ping_count {F TS} (h : SensHeader F TS) (rds : list ReadResult)
    (s : SampleStore F TS) :
  let n := List.length rds in
  count_pings (snd (grab_thread h rds s)) = ((n - 1) / 400)%nat /\
  (n <> 0%nat ->
   ping_data_count (fst (grab_thread h rds s)) = Z.of_nat ((n - 1) mod 400) + 1).
Proof.
  intros n. unfold grab_thread.
  destruct (grab_loop_pings h rds {| ping_data_count := 0; store := s |}) as [P C];
    [simpl; lia |].
  simpl in P, C. fold n in P, C.
  rewrite Nat.add_0_r in P, C. split; [exact P |].
  intros Hn. rewrite C. apply Nat.eqb_neq in Hn. rewrite Hn. reflexivity.
Qed.

(** 400 iterations of a loop whose reads all time out. *)
Definition timeouts (n : nat) : list ReadResult :=
  repeat {| rd_res := 0; rd_buf := [] |} n.

(** ** C5 counterexample: after 400 iterations no ping has been sent,
    where [floor(400/400) = 1] is claimed. *)
Lemma C5_ping_count_counterexample :
  count_pings (snd (grab_thread demo_header (timeouts 400) demo_store)) = 0%nat /\
  (400 / 400)%nat = 1%nat.
Proof. vm_compute. split; reflexivity. Qed.

(** ** Registry facts *)

Lemma enum_loop_prefix pre rest m :
  fst (enum_loop pre m) = Ret tt ->
  enum_loop (pre ++ rest) m = enum_loop rest (snd (enum_loop pre m)).
Proof.
  revert m. induction pre as [| d pre IH]; intros m H; [reflexivity |].
  simpl in *. destruct (stoi (serial_number d)); [| discriminate].
  apply IH, H.
Qed.

Lemma map_set_hd (a : Z * Z) k v m :
  fst a < k -> HdRel (fun a b => fst a < fst b) a m ->
  HdRel (fun a b => fst a < fst b) a (map_set k v m).
Proof.
  intros Hk Hh. destruct m as [| [k' v'] t]; simpl; [constructor; exact Hk |].
  inversion Hh; subst.
  destruct (k <? k'); [constructor; exact Hk |].
  destruct (k =? k'); constructor; assumption.
Qed.

Lemma map_set_sorted k v m : map_sorted m -> map_sorted (map_set k v m).
Proof.
  unfold map_sorted. induction m as [| [k' v'] t IH]; intros Hs; simpl.
  - repeat constructor.
  - inversion Hs as [| ? ? Ht Hh]; subst.
    destruct (k <? k') eqn:E1.
    + apply Z.ltb_lt in E1. constructor; [exact Hs | constructor; exact E1].
    + destruct (k =? k') eqn:E2.
      * apply Z.eqb_eq in E2; subst k'.
        constructor; [exact Ht |].
        inversion Hh; subst; constructor; assumption.
      * apply Z.ltb_ge in E1. apply Z.eqb_neq in E2.
        constructor; [apply IH, Ht |].
        apply map_set_hd; [simpl; lia | exact Hh].
Qed.

Lemma enum_loop_sorted devs m :
  map_sorted m -> map_sorted (snd (enum_loop devs m)).
Proof.
  revert m. induction devs as [| d devs IH]; intros m Hm; simpl; [exact Hm |].
  destruct (stoi (serial_number d)); [apply IH, map_set_sorted, Hm | exact Hm].
Qed.



Lemma startCapture_facts t st :
  let '(r, st', evs) := startCapture t st in
  mSlDevPid st' = mSlDevPid st /\ mDevHandle st' = mDevHandle st /\ opens evs = [] /\
  (mGrabThread_joinable st = false ->
   r = Ret (if mDevHandle st then feature_ok t else false) /\
   mGrabThread_joinable st' = (if mDevHandle st then feature_ok t else false) /\
   (mDevHandle st <> None -> In (EvSendStreamStatus 1) evs)).
Proof.
  unfold startCapture, enableDataStream.
  destruct (mDevHandle st) as [hd |] eqn:Eh.
  - destruct (feature_ok t); simpl.
    + destruct (mGrabThread_joinable st); simpl.
      * repeat split; try assumption; discriminate.
      * repeat split; try assumption; intros _; left; reflexivity.
    + repeat split; try assumption; intros _; left; reflexivity.
  - simpl. repeat split; try assumption. intros Hne; congruence.
Qed.

Lemma open_sn_facts t sn st :
  mGrabThread_joinable st = false ->
  let '(r, st', evs) := open_sn t sn st in
  (r = Ret true <-> mDevHandle st' <> None) /\
  (mDevHandle st' <> None ->
   mInitialized st' = feature_ok t /\ mGrabThread_joinable st' = feature_ok t /\
   In (EvSendStreamStatus 1) evs).
Proof.
  intros Hj. unfold open_sn.
  destruct (map_index sn (mSlDevPid st)) as [pid m].
  destruct (hid_open_ok t pid (to_string sn)); simpl.
  - pose proof (startCapture_facts t
      (with_handle (Some (pid, to_string sn)) (with_map m st))) as Hs.
    destruct (startCapture t _) as [[r st'] evs].
    destruct Hs as (_ & Hh & _ & Hr). simpl in Hh, Hr.
    destruct (Hr Hj) as (-> & Hj' & Hin). simpl.
    split; [split; [intros _; rewrite Hh; discriminate | reflexivity] |].
    intros _. repeat split; [exact Hj' | right; apply Hin; discriminate].
  - split; [split; [discriminate | intros H; exfalso; apply H; reflexivity] |].
    intros H; exfalso; apply H; reflexivity.
Qed.


Lemma enumerateDevices_facts t st :
  let '(r, st', evs) := enumerateDevices t st in
  mDevHandle st' = mDevHandle st /\
  mGrabThread_joinable st' = mGrabThread_joinable st /\
  map_sorted (mSlDevPid st') /\ opens evs = [] /\ In EvHidInit evs.
Proof.
  unfold enumerateDevices. destruct (hid_init_ok t); simpl.
  - pose proof (enum_loop_sorted (hid_devices t) [] (Sorted_nil _)) as Hs.
    destruct (enum_loop (hid_devices t) []) as [r m]. simpl in Hs.
    destruct r; simpl; repeat split; auto.
  - repeat split; auto. constructor.
Qed.

(** ** C2 (corrected): on a session without a handle or a running capture
    thread, [init] returns [true] exactly when it obtained a device handle;
    the result of the enable-stream command does not reach the return value:
    it is stored in [mInitialized], and the capture thread is started only
    when that command succeeded. *)
Theorem C2_open_result (t : Transport) (sn : Z) (st : Session) :
  mDevHandle st = None -> mGrabThread_joinable st = false ->
  let '(r, st', evs) := init t sn st in
  (r = Ret true <-> mDevHandle st' <> None) /\
  (mDevHandle st' <> None ->
   mInitialized st' = feature_ok t /\ mGrabThread_joinable st' = feature_ok t /\
   In (EvSendStreamStatus 1) evs).
Proof.
  intros Hh Hj. unfold init.
  destruct (sn =? -1); simpl.
  - assert (Hpre : forall st1 evs1,
        mDevHandle st1 = None -> mGrabThread_joinable st1 = false ->
        let '(r, st', evs) :=
          match mSlDevPid st1 with
          | [] => (Ret false, st1, evs1)
          | (k, _) :: _ => let '(r, st, evs') := open_sn t k st1 in (r, st, evs1 ++ evs')
          end in
        (r = Ret true <-> mDevHandle st' <> None) /\
        (mDevHandle st' <> None ->
         mInitialized st' = feature_ok t /\ mGrabThread_joinable st' = feature_ok t /\
         In (EvSendStreamStatus 1) evs)).
    { intros st1 evs1 Hh1 Hj1. destruct (mSlDevPid st1) as [| [k v] rest].
      - rewrite Hh1. split; [split; [discriminate | intros H; exfalso; apply H; reflexivity] |].
        intros H; exfalso; apply H; reflexivity.
      - pose proof (open_sn_facts t k st1 Hj1) as Ho.
        destruct (open_sn t k st1) as [[r st'] evs].
        destruct Ho as [Ho1 Ho2]. split; [exact Ho1 |].
        intros Hn. destruct (Ho2 Hn) as (A & B & C).
        repeat split; [exact A | exact B | apply in_or_app; right; exact C]. }
    destruct (mSlDevPid st) as [| p rest] eqn:Em.
    + pose proof (enumerateDevices_facts t st) as He.
      destruct (enumerateDevices t st) as [[r0 st1] evs1].
      destruct He as (Hh1 & Hj1 & _).
      destruct r0 as [n | e].
      * apply Hpre; congruence.
      * rewrite Hh1, Hh. split; [split; [discriminate | intros H; exfalso; apply H; reflexivity] |].
        intros H; exfalso; apply H; reflexivity.
    + specialize (Hpre st [] Hh Hj). rewrite Em in Hpre. rewrite Em. exact Hpre.
  - apply open_sn_facts, Hj.
Qed.

Lemma C2_open_result_witness :
  mDevHandle (closed_session []) = None /\
  mGrabThread_joinable (closed_session []) = false /\
  mInitialized (snd (fst (init (demo_transport [] false) 1001 (closed_session [])))) = false.
Proof.
  split; [reflexivity |]. split; [reflexivity |].
  pose proof (C2_open_result (demo_transport [] false) 1001 (closed_session [])
    eq_refl eq_refl) as H.
  destruct (init (demo_transport [] false) 1001 (closed_session [])) as [[r st'] evs] eqn:E.
  destruct H as [_ H2]. simpl.
  destruct H2 as [A _].
  - vm_compute in E. injection E as <- <- <-. discriminate.
  - rewrite A. reflexivity.
Defined.

(** ** C2 counterexample: the handle for serial 1001 is obtained, the
    enable-stream feature report fails, and [init] still returns [true]. *)
Lemma C2_open_result_counterexample :
  let '(r, st', evs) := init (demo_transport [] false) 1001 (closed_session [(1001, 5)]) in
  r = Ret true /\ mDevHandle st' = Some (5, "1001"%string) /\
  In (EvSendStreamStatus 1) evs /\ feature_ok (demo_transport [] false) = false /\
  mInitialized st' = false.
Proof. vm_compute. repeat split; auto. Qed.

(** ** C4 (corrected): when the device list holds an entry whose serial
    string [std::stoi] rejects, [enumerateDevices] stops there with that
    exception; the registry it leaves is not the one from before the call:
    it was cleared first and holds exactly the entries of the devices
    listed before the rejected one. *)
Theorem C4_bad_serial (t : Transport) (st : Session)
    (pre : list hid_device_info) (d : hid_device_info) (post : list hid_device_info)
    (e : exn) :
  hid_init_ok t = true ->
  hid_devices t = pre ++ d :: post ->
  fst (enum_loop pre []) = Ret tt ->
  stoi (serial_number d) = Raise e ->
  enumerateDevices t st
  = (Raise e, with_map (snd (enum_loop pre [])) st, [EvHidInit; EvHidEnumerate]).
Proof.
  intros Hi Hd Hp Hs. unfold enumerateDevices. rewrite Hi, Hd. simpl.
  rewrite (enum_loop_prefix pre (d :: post) [] Hp). simpl. rewrite Hs.
  reflexivity.
Qed.

Definition dev (sn : string) (pid : Z) : hid_device_info :=
  {| product_id := pid; serial_number := sn; release_number := 0 |}.

Lemma C4_bad_serial_witness :
  hid_init_ok (demo_transport [dev "1002" 7; dev "abc" 9] true) = true /\
  mSlDevPid (snd (fst (enumerateDevices (demo_transport [dev "1002" 7; dev "abc" 9] true)
                         (closed_session [(1001, 5)])))) = [(1002, 7)].
Proof.
  split; [reflexivity |].
  rewrite (C4_bad_serial (demo_transport [dev "1002" 7; dev "abc" 9] true)
             (closed_session [(1001, 5)]) [dev "1002" 7] (dev "abc" 9) [] InvalidArgument
             eq_refl eq_refl eq_refl eq_refl).
  reflexivity.
Defined.

(** ** C4 counterexample: registry [{1001}] before, device list with
    serial ["abc"]: the call raises [std::invalid_argument] and the registry
    afterwards is empty. *)
Lemma C4_bad_serial_counterexample :
  let st := closed_session [(1001, 5)] in
  let '(r, st', _) := enumerateDevices (demo_transport [dev "abc" 9] true) st in
  r = Raise InvalidArgument /\ mSlDevPid st' = [] /\ mSlDevPid st' <> mSlDevPid st.
Proof. vm_compute. split; [reflexivity | split; [reflexivity | discriminate]]. Qed.






(** ** C8: [reset] (the session's close) is idempotent: a second call
    leaves the state of the first one as it is and makes no call at all: no
    [join] (the thread is no longer joinable), no feature report and no
    [hid_close].  On any session without a handle and without a joinable
    thread it makes no call either; it returns nothing, so it cannot fail. *)
Theorem C8_reset_idempotent (t : Transport) (st : Session) :
  let '(st1, _) := reset t st in
  reset t st1 = (st1, []) /\
  (mDevHandle st = None -> mGrabThread_joinable st = false ->
   snd (reset t st) = [] /\
   fst (reset t st) = with_initialized false (with_stop true st)).
Proof.
  unfold reset, enableDataStream.
  destruct st as [m hd j stp ini]; simpl.
  destruct hd as [p |], j; simpl; split; try reflexivity;
    intros H1 H2; try discriminate; split; reflexivity.
Qed.

(** * Further properties of the code *)

(** ** Registry *)

Lemma map_find_set_eq k v m : map_find k (map_set k v m) = Some v.
Proof.
  induction m as [| [k' v'] t IH]; simpl; [rewrite Z.eqb_refl; reflexivity |].
  destruct (k <? k'); simpl; [rewrite Z.eqb_refl; reflexivity |].
  destruct (k =? k') eqn:E; simpl; [rewrite Z.eqb_refl; reflexivity |].
  rewrite E. exact IH.
Qed.

Lemma map_find_set_neq k k' v m :
  k' <> k -> map_find k' (map_set k v m) = map_find k' m.
Proof.
  intros Hne. apply Z.eqb_neq in Hne.
  induction m as [| [k0 v0] t IH]; simpl; [rewrite Hne; reflexivity |].
  destruct (k <? k0); simpl; [rewrite Hne; reflexivity |].
  destruct (k =? k0) eqn:E; simpl.
  - apply Z.eqb_eq in E. subst k0. rewrite Hne. reflexivity.
  - destruct (k' =? k0); [reflexivity | exact IH].
Qed.

Lemma map_keys_set x k v m :
  In x (map fst (map_set k v m)) <-> x = k \/ In x (map fst m).
Proof.
  induction m as [| [k0 v0] t IH]; simpl; [intuition congruence |].
  destruct (k <? k0); simpl; [intuition congruence |].
  destruct (k =? k0) eqn:E; simpl.
  - apply Z.eqb_eq in E. subst k0. intuition congruence.
  - rewrite IH. intuition congruence.
Qed.

Lemma enum_loop_find devs m k :
  fst (enum_loop devs m) = Ret tt ->
  map_find k (snd (enum_loop devs m)) = last_pid devs k (map_find k m).
Proof.
  unfold last_pid. revert m.
  induction devs as [| d devs IH]; intros m H; [reflexivity |].
  simpl in *. destruct (stoi (serial_number d)) as [sn | e]; [| discriminate].
  rewrite (IH _ H). f_equal.
  destruct (sn =? k) eqn:E.
  - apply Z.eqb_eq in E. subst. apply map_find_set_eq.
  - apply map_find_set_neq. apply Z.eqb_neq in E. congruence.
Qed.

Lemma enum_loop_keys devs m x :
  fst (enum_loop devs m) = Ret tt ->
  (In x (map fst (snd (enum_loop devs m))) <->
   In x (map fst m) \/ exists d, In d devs /\ stoi (serial_number d) = Ret x).
Proof.
  revert m.
  induction devs as [| d devs IH]; intros m H; simpl in *.
  - split; [tauto | intros [Hx | (d & [] & _)]; exact Hx].
  - destruct (stoi (serial_number d)) as [sn | e] eqn:Es; [| discriminate].
    rewrite (IH _ H), map_keys_set. split.
    + intros [[-> | Hx] | (d' & Hd' & Hs)].
      * right. exists d. split; [left; reflexivity | exact Es].
      * left. exact Hx.
      * right. exists d'. split; [right; exact Hd' | exact Hs].
    + intros [Hx | (d' & [<- | Hd'] & Hs)].
      * left; right; exact Hx.
      * left; left. rewrite Es in Hs. injection Hs; auto.
      * right. exists d'. split; assumption.
Qed.

(** X1: after an enumeration that returns normally (with [hid_init]
    working), looking up a serial in the registry gives the product id of
    the last listed device whose serial string parses to it, and nothing for
    a serial no device has. *)
Theorem X1_enumerate_lookup (t : Transport) (st st' : Session) (n : Z) (evs : list event) :
  hid_init_ok t = true ->
  enumerateDevices t st = (Ret n, st', evs) ->
  forall k, map_find k (mSlDevPid st') = last_pid (hid_devices t) k None.
Proof.
  intros Hi He k. unfold enumerateDevices in He. rewrite Hi in He. simpl in He.
  destruct (enum_loop (hid_devices t) []) as [r m] eqn:El.
  destruct r as [u | e]; [| discriminate].
  injection He as _ <- _. simpl.
  pose proof (enum_loop_find (hid_devices t) [] k) as Hf. rewrite El in Hf.
  destruct u. exact (Hf eq_refl).
Qed.

Lemma X1_enumerate_lookup_witness :
  hid_init_ok (demo_transport [dev "1001" 5; dev "1002" 7; dev "1001" 9] true) = true /\
  map_find 1001 (mSlDevPid (snd (fst (enumerateDevices
     (demo_transport [dev "1001" 5; dev "1002" 7; dev "1001" 9] true) (closed_session [])))))
  = Some 9.
Proof.
  split; [reflexivity |].
  assert (E : enumerateDevices (demo_transport [dev "1001" 5; dev "1002" 7; dev "1001" 9] true)
                (closed_session [])
              = (Ret 2, closed_session [(1001, 9); (1002, 7)], [EvHidInit; EvHidEnumerate]))
    by reflexivity.
  rewrite E. cbn [fst snd].
  rewrite (X1_enumerate_lookup (demo_transport [dev "1001" 5; dev "1002" 7; dev "1001" 9] true)
    _ _ _ _ eq_refl E 1001). reflexivity.
Defined.

(** X2: an enumeration that returns normally returns the number of registry
    entries; the registry is strictly ordered by serial (no serial twice),
    and (with [hid_init] working) its serials are exactly those that the
    listed devices' serial strings parse to. *)
Theorem X2_enumerate_count_keys (t : Transport) (st st' : Session) (n : Z)
    (evs : list event) :
  enumerateDevices t st = (Ret n, st', evs) ->
  n = Z.of_nat (List.length (mSlDevPid st')) /\
  map_sorted (mSlDevPid st') /\
  (hid_init_ok t = true ->
   forall k, In k (map fst (mSlDevPid st')) <->
             exists d, In d (hid_devices t) /\ stoi (serial_number d) = Ret k).
Proof.
  intros He. unfold enumerateDevices in He.
  destruct (hid_init_ok t) eqn:Hi; simpl in He.
  - pose proof (enum_loop_sorted (hid_devices t) [] (Sorted_nil _)) as Hs.
    destruct (enum_loop (hid_devices t) []) as [r m] eqn:El.
    destruct r as [u | e]; [| discriminate].
    injection He as <- <- _. simpl in *.
    split; [reflexivity |]. split; [exact Hs |].
    intros _ k. pose proof (enum_loop_keys (hid_devices t) [] k) as Hk.
    rewrite El in Hk. destruct u. rewrite (Hk eq_refl). simpl. tauto.
  - injection He as <- <- _. simpl. split; [reflexivity |].
    split; [constructor | discriminate].
Qed.

Lemma X2_enumerate_count_keys_witness :
  let t := demo_transport [dev "1003" 4; dev "1001" 5; dev "1002" 7] true in
  enumerateDevices t (closed_session [(7, 1)])
  = (Ret 3, closed_session [(1001, 5); (1002, 7); (1003, 4)], [EvHidInit; EvHidEnumerate]) /\
  3 = Z.of_nat (List.length [(1001, 5); (1002, 7); (1003, 4)]).
Proof.
  intros t. split; [reflexivity |].
  exact (proj1 (X2_enumerate_count_keys t (closed_session [(7, 1)])
    (closed_session [(1001, 5); (1002, 7); (1003, 4)]) 3 [EvHidInit; EvHidEnumerate]
    eq_refl)).
Defined.

(** X3: enumeration replaces the registry, it never merges: the outcome,
    the registry it leaves and the calls it makes depend on the transport
    only, whatever the registry held before (also when it throws), and it
    changes no other session field. *)
Theorem X3_enumerate_replaces (t : Transport) :
  exists r m evs, forall st, enumerateDevices t st = (r, with_map m st, evs).
Proof.
  unfold enumerateDevices.
  destruct (hid_init_ok t); simpl.
  - destruct (enum_loop (hid_devices t) []) as [r m].
    destruct r as [u | e].
    + exists (Ret (Z.of_nat (List.length m))), m, [EvHidInit; EvHidEnumerate].
      intros st. destruct st; reflexivity.
    + exists (Raise e), m, [EvHidInit; EvHidEnumerate]. intros st. destruct st; reflexivity.
  - exists (Ret 0), [], [EvHidInit]. intros st. destruct st; reflexivity.
Qed.

(** X4: [getDeviceList] on a well-formed registry returns the registered
    serials in strictly increasing order; it enumerates only when the
    registry is empty, and otherwise makes no call and changes nothing. *)
Theorem X4_getDeviceList_sorted (t : Transport) (st st' : Session) (l : list Z)
    (evs : list event) :
  map_sorted (mSlDevPid st) ->
  getDeviceList t st = (Ret l, st', evs) ->
  StronglySorted Z.lt l /\ l = map fst (mSlDevPid st') /\
  (mSlDevPid st <> [] -> st' = st /\ evs = []).
Proof.
  intros Hs Hg. unfold getDeviceList in Hg.
  assert (Hsorted : forall m, map_sorted m -> StronglySorted Z.lt (map fst m)).
  { intros m Hm. apply Sorted_StronglySorted; [intros a b c; lia |].
    unfold map_sorted in Hm. induction Hm as [| a m Hm IH Hh]; simpl; constructor; [exact IH |].
    destruct Hh; simpl; constructor; assumption. }
  destruct (mSlDevPid st) as [| p rest] eqn:Em.
  - destruct (enumerateDevices t st) as [[r st1] evs1] eqn:Ee.
    pose proof (enumerateDevices_facts t st) as Hf. rewrite Ee in Hf.
    destruct Hf as (_ & _ & Hs1 & _).
    destruct r; [| discriminate].
    injection Hg as <- <- _.
    split; [apply Hsorted, Hs1 | split; [reflexivity | intros H; congruence]].
  - injection Hg as <- <- <-. rewrite Em.
    split; [apply Hsorted, Hs |].
    split; [reflexivity | intros _; split; reflexivity].
Qed.

Lemma X4_getDeviceList_sorted_witness :
  map_sorted (mSlDevPid (closed_session [(1001, 5); (1002, 7)])) /\
  StronglySorted Z.lt [1001; 1002].
Proof.
  assert (Hs : map_sorted (mSlDevPid (closed_session [(1001, 5); (1002, 7)]))).
  { repeat constructor; simpl; lia. }
  split; [exact Hs |].
  exact (proj1 (X4_getDeviceList_sorted (demo_transport [] true)
    (closed_session [(1001, 5); (1002, 7)]) (closed_session [(1001, 5); (1002, 7)])
    [1001; 1002] [] Hs eq_refl)).
Defined.

(** ** Serial strings: [std::to_string] and [std::stoi] *)

Lemma digit_cases d : 0 <= d < 10 ->
  d = 0 \/ d = 1 \/ d = 2 \/ d = 3 \/ d = 4 \/ d = 5 \/ d = 6 \/ d = 7 \/ d = 8 \/ d = 9.
Proof. lia. Qed.

Lemma digit_val_chr d : 0 <= d < 10 -> digit_val (chr d) = Some d.
Proof.
  intros Hd. destruct (digit_cases d Hd) as [-> | [-> | [-> | [-> | [-> | [-> | [-> | [-> | [-> | ->]]]]]]]]];
    reflexivity.
Qed.

Lemma digits_rev_step f n acc :
  digits_rev (S f) n acc
  = if n / 10 =? 0 then String (chr (n mod 10)) acc
    else digits_rev f (n / 10) (String (chr (n mod 10)) acc).
Proof. reflexivity. Qed.

Lemma read_digits_chr d r a b :
  0 <= d < 10 -> read_digits (String (chr d) r) a b = read_digits r (a * 10 + d) true.
Proof. intros Hd. cbn [read_digits]. rewrite digit_val_chr by exact Hd. reflexivity. Qed.

Lemma digits_rev_read f : forall n acc a b,
  0 <= n < 10 ^ Z.of_nat (S f) ->
  exists p, read_digits (digits_rev (S f) n acc) a b = read_digits acc (a * p + n) true.
Proof.
  induction f as [| f IH]; intros n acc a b Hn.
  - change (10 ^ Z.of_nat 1) with 10 in Hn.
    rewrite digits_rev_step.
    rewrite (proj2 (Z.eqb_eq _ _) (Z.div_small n 10 ltac:(lia))).
    rewrite read_digits_chr by (apply Z.mod_pos_bound; lia).
    exists 10. rewrite Z.mod_small by lia. reflexivity.
  - rewrite digits_rev_step.
    destruct (n / 10 =? 0) eqn:E.
    + rewrite read_digits_chr by (apply Z.mod_pos_bound; lia).
      apply Z.eqb_eq in E. exists 10.
      pose proof (Z.div_mod n 10 ltac:(lia)). f_equal. lia.
    + assert (Hq : 0 <= n / 10 < 10 ^ Z.of_nat (S f)).
      { split; [apply Z.div_pos; lia |].
        apply Z.div_lt_upper_bound; [lia |].
        rewrite <- Z.pow_succ_r by lia. rewrite <- Nat2Z.inj_succ. lia. }
      destruct (IH (n / 10) (String (chr (n mod 10)) acc) a b Hq) as [p Hp].
      exists (p * 10). rewrite Hp.
      rewrite read_digits_chr by (apply Z.mod_pos_bound; lia).
      pose proof (Z.div_mod n 10 ltac:(lia)). f_equal. lia.
Qed.

Lemma digits_rev_head f : forall n acc, 0 <= n -> exists d r,
  0 <= d < 10 /\ digits_rev (S f) n acc = String (chr d) r.
Proof.
  induction f as [| f IH]; intros n acc Hn.
  - exists (n mod 10), acc. rewrite digits_rev_step.
    split; [apply Z.mod_pos_bound; lia |].
    destruct (n / 10 =? 0); reflexivity.
  - rewrite digits_rev_step.
    destruct (n / 10 =? 0).
    + exists (n mod 10), acc. split; [apply Z.mod_pos_bound; lia | reflexivity].
    + apply IH. apply Z.div_pos; lia.
Qed.

Lemma stoi_head_digit d r v :
  0 <= d < 10 -> read_digits (String (chr d) r) 0 false = (v, true) ->
  stoi (String (chr d) r)
  = if (v <? INT_MIN) || (INT_MAX <? v) then Raise OutOfRange else Ret v.
Proof.
  intros Hd Hr. unfold stoi. cbv zeta.
  assert (Hs : (match skip_ws (String (chr d) r) with
                | String "-" r => (true, r)
                | String "+" r => (false, r)
                | _ => (false, skip_ws (String (chr d) r))
                end) = (false, String (chr d) r)).
  { destruct (digit_cases d Hd) as [-> | [-> | [-> | [-> | [-> | [-> | [-> | [-> | [-> | ->]]]]]]]]];
      reflexivity. }
  rewrite Hs, Hr. reflexivity.
Qed.

(** X5: [std::stoi] reads back what [std::to_string] writes: for every
    [int] value [z], [stoi(to_string(z)) = z].  [init] passes
    [to_string(sn)] to [hid_open], and [enumerateDevices] reads serials with
    [stoi]. *)
Theorem X5_stoi_to_string (z : Z) :
  INT_MIN <= z <= INT_MAX -> stoi (to_string z) = Ret z.
Proof.
  intros Hz. unfold INT_MIN, INT_MAX in Hz.
  assert (Hb : forall n, 0 <= n <= 2 ^ 31 -> 0 <= n < 10 ^ Z.of_nat 20).
  { intros n Hn. change (10 ^ Z.of_nat 20) with 100000000000000000000.
    change (2 ^ 31) with 2147483648 in Hn. lia. }
  unfold to_string. destruct (z <? 0) eqn:Ez.
  - apply Z.ltb_lt in Ez.
    destruct (digits_rev_read 19 (- z) EmptyString 0 false ltac:(apply Hb; lia)) as [p Hp].
    rewrite Z.mul_0_l, Z.add_0_l in Hp. cbn [read_digits] in Hp.
    unfold stoi. cbv zeta.
    change (match skip_ws (String "-" (digits_rev 20 (- z) EmptyString)) with
            | String "-" r => (true, r)
            | String "+" r => (false, r)
            | _ => (false, skip_ws (String "-" (digits_rev 20 (- z) EmptyString)))
            end) with (true, digits_rev 20 (- z) EmptyString).
    cbv beta iota zeta. rewrite Hp. cbv beta iota zeta. cbn [negb].
    replace (- - z) with z by lia.
    unfold INT_MIN, INT_MAX.
    destruct (z <? - 2 ^ 31) eqn:E1; [apply Z.ltb_lt in E1; lia |].
    destruct (2 ^ 31 - 1 <? z) eqn:E2; [apply Z.ltb_lt in E2; lia |].
    reflexivity.
  - apply Z.ltb_ge in Ez.
    destruct (digits_rev_read 19 z EmptyString 0 false ltac:(apply Hb; lia)) as [p Hp].
    destruct (digits_rev_head 19 z EmptyString Ez) as (d & r & Hd & Hh).
    rewrite Z.mul_0_l, Z.add_0_l in Hp. cbn [read_digits] in Hp.
    change (digits_rev 20 z EmptyString) with (digits_rev (S 19) z EmptyString).
    rewrite Hh in Hp |- *.
    rewrite (stoi_head_digit d r z Hd Hp).
    unfold INT_MIN, INT_MAX.
    destruct (z <? - 2 ^ 31) eqn:E1; [apply Z.ltb_lt in E1; lia |].
    destruct (2 ^ 31 - 1 <? z) eqn:E2; [apply Z.ltb_lt in E2; lia |].
    reflexivity.
Qed.

Lemma X5_stoi_to_string_witness :
  (INT_MIN <= -2147483648 <= INT_MAX) /\ stoi (to_string (-2147483648)) = Ret (-2147483648).
Proof.
  assert (H : INT_MIN <= -2147483648 <= INT_MAX) by (unfold INT_MIN, INT_MAX; lia).
  split; [exact H | exact (X5_stoi_to_string _ H)].
Defined.

(** ** Opening a device *)

Lemma map_index_find k m :
  map_index k m
  = (match map_find k m with Some v => v | None => 0 end,
     match map_find k m with Some _ => m | None => map_set k 0 m end).
Proof. unfold map_index. destruct (map_find k m); reflexivity. Qed.

Lemma open_sn_effects t sn st :
  let '(r, st', evs) := open_sn t sn st in
  mSlDevPid st' = snd (map_index sn (mSlDevPid st)) /\
  opens evs = [(fst (map_index sn (mSlDevPid st)), to_string sn)] /\
  ~ In EvHidInit evs /\ ~ In EvHidEnumerate evs.
Proof.
  unfold open_sn, startCapture, enableDataStream.
  destruct (map_index sn (mSlDevPid st)) as [pid m].
  destruct (hid_open_ok t pid (to_string sn)); simpl.
  - destruct (feature_ok t), (mGrabThread_joinable st); simpl;
      repeat split; try reflexivity;
      intros H; repeat (destruct H as [H | H]; [discriminate |]); contradiction.
  - repeat split; try reflexivity; intros [H | H]; (discriminate || exact H).
Qed.



(** X6: [init] with a serial number other than [-1] does not enumerate:
    it calls [hid_open] once, for that serial and the product id the
    registry holds for it.  An unknown serial is opened with product id 0,
    and [mSlDevPid[sn]] leaves the entry [(sn, 0)] in the registry. *)
Theorem X6_init_explicit_serial (t : Transport) (sn : Z) (st : Session) :
  sn <> -1 ->
  let '(r, st', evs) := init t sn st in
  opens evs = [(match map_find sn (mSlDevPid st) with Some v => v | None => 0 end,
                to_string sn)] /\
  mSlDevPid st' = (match map_find sn (mSlDevPid st) with
                   | Some _ => mSlDevPid st
                   | None => map_set sn 0 (mSlDevPid st)
                   end) /\
  ~ In EvHidInit evs /\ ~ In EvHidEnumerate evs.
Proof.
  intros Hsn. unfold init.
  rewrite (proj2 (Z.eqb_neq sn (-1)) Hsn). cbn [negb].
  pose proof (open_sn_effects t sn st) as He.
  rewrite map_index_find in He. cbn [fst snd] in He.
  destruct (open_sn t sn st) as [[r st'] evs]. tauto.
Qed.

Lemma X6_init_explicit_serial_witness :
  1003 <> -1 /\
  (let '(r, st', evs) := init (demo_transport [] true) 1003 (closed_session [(1001, 5)]) in
   opens evs = [(match map_find 1003 [(1001, 5)] with Some v => v | None => 0 end,
                 to_string 1003)] /\
   mSlDevPid st' = (match map_find 1003 [(1001, 5)] with
                    | Some _ => [(1001, 5)]
                    | None => map_set 1003 0 [(1001, 5)]
                    end) /\
   ~ In EvHidInit evs /\ ~ In EvHidEnumerate evs).
Proof.
  assert (H : 1003 <> -1) by lia.
  split; [exact H |].
  exact (X6_init_explicit_serial (demo_transport [] true) 1003
    (closed_session [(1001, 5)]) H).
Defined.



(** ** Stream status *)

(** X9: the stream-status report round trip: with an open handle,
    [enableDataStream(enable)] sends the flag byte of the two-byte report
    [{REP_ID_SENSOR_STREAM_STATUS, enable}], and [isDataStreamEnabled] reads
    back [enable] from a reply that carries this report and whose length
    covers [SensStreamStatus]. *)
Theorem X9_stream_status_roundtrip (t : Transport) (sh : StreamHeader) (en : bool)
    (st : Session) (res : Z) (rest : list Z) :
  mDevHandle st <> None -> 0 <= res -> sizeof_SensStreamStatus sh <= res ->
  snd (enableDataStream t en st)
  = [EvSendStreamStatus (nth 1 (stream_status_payload sh en) 0)] /\
  isDataStreamEnabled sh {| fr_res := res; fr_buf := stream_status_payload sh en ++ rest |} st
  = en.
Proof.
  intros Hh H0 Hs. unfold enableDataStream, isDataStreamEnabled.
  destruct (mDevHandle st) as [p |]; [| contradiction].
  cbn [fr_res fr_buf].
  rewrite (proj2 (Z.ltb_ge res 0) H0), (proj2 (Z.ltb_ge res _) Hs).
  unfold stream_status_payload. cbn [app nth].
  rewrite Z.eqb_refl. destruct en; split; reflexivity.
Qed.

Lemma X9_stream_status_roundtrip_witness :
  mDevHandle (with_handle (Some (5, "1001"%string)) (closed_session [])) <> None /\
  0 <= 2 /\ sizeof_SensStreamStatus {| REP_ID_SENSOR_STREAM_STATUS := 50; sizeof_SensStreamStatus := 2 |} <= 2 /\
  isDataStreamEnabled {| REP_ID_SENSOR_STREAM_STATUS := 50; sizeof_SensStreamStatus := 2 |}
    {| fr_res := 2; fr_buf := stream_status_payload
         {| REP_ID_SENSOR_STREAM_STATUS := 50; sizeof_SensStreamStatus := 2 |} true ++ [0; 0] |}
    (with_handle (Some (5, "1001"%string)) (closed_session [])) = true.
Proof.
  assert (H1 : mDevHandle (with_handle (Some (5, "1001"%string)) (closed_session [])) <> None)
    by discriminate.
  assert (H2 : 0 <= 2) by lia.
  assert (H3 : sizeof_SensStreamStatus
                 {| REP_ID_SENSOR_STREAM_STATUS := 50; sizeof_SensStreamStatus := 2 |} <= 2)
    by (simpl; lia).
  split; [exact H1 |]. split; [exact H2 |]. split; [exact H3 |].
  exact (proj2 (X9_stream_status_roundtrip (demo_transport [] true)
    {| REP_ID_SENSOR_STREAM_STATUS := 50; sizeof_SensStreamStatus := 2 |} true
    (with_handle (Some (5, "1001"%string)) (closed_session [])) 2 [0; 0] H1 H2 H3)).
Defined.

(** ** The capture loop over a run *)

Section LoopFacts.
Context {F TS : Type} (h : SensHeader F TS).

Lemma grab_iter_store rd ls :
  store (fst (grab_iter h rd ls))
  = (if accepted h rd then sens_update h (overlay h (rd_buf rd)) (store ls) else store ls) /\
  count_nonblocking (snd (grab_iter h rd ls)) = (if accepted h rd then 0%nat else 1%nat).
Proof.
  unfold grab_iter, keep_alive, accepted, count_nonblocking.
  rewrite Z.ltb_antisym.
  destruct (400 <=? ping_data_count ls), (sizeof_SensData h <=? rd_res rd),
    (nth 0 (rd_buf rd) 0 =? REP_ID_SENSOR_DATA h); split; reflexivity.
Qed.

Lemma count_nonblocking_app a b :
  count_nonblocking (a ++ b) = (count_nonblocking a + count_nonblocking b)%nat.
Proof. unfold count_nonblocking. rewrite filter_app, length_app. reflexivity. Qed.

Lemma grab_loop_store rds : forall ls,
  store (fst (grab_loop h rds ls)) = loop_store h rds (store ls) /\
  count_nonblocking (snd (grab_loop h rds ls))
  = List.length (filter (fun rd => negb (accepted h rd)) rds).
Proof.
  induction rds as [| rd rest IH]; intros ls; [split; reflexivity |].
  cbn [grab_loop]. destruct (grab_iter h rd ls) as [ls1 e1] eqn:E1.
  destruct (grab_loop h rest ls1) as [ls2 e2] eqn:E2.
  pose proof (grab_iter_store rd ls) as [S1 N1]. rewrite E1 in S1, N1. cbn [fst snd] in S1, N1.
  destruct (IH ls1) as [S2 N2]. rewrite E2 in S2, N2. cbn [fst snd] in S2, N2 |- *.
  rewrite count_nonblocking_app, N1, N2, S2, S1. cbn [loop_store fold_left filter].
  unfold loop_store. destruct (accepted h rd); split; reflexivity.
Qed.

Lemma sens_update_mag d s :
  mLastMAGData (sens_update h d s)
  = if mag_valid d =? MAG_NEW_VAL h then mag_of h d else mLastMAGData s.
Proof.
  unfold sens_update, cam_part, env_part, mag_part, mag_of.
  destruct (mag_valid d =? MAG_NEW_VAL h), (env_valid d =? ENV_NEW_VAL h); simpl;
    destruct (_ && _); reflexivity.
Qed.

Lemma sens_update_env d s :
  mLastENVData (sens_update h d s)
  = if env_valid d =? ENV_NEW_VAL h then env_of h d else mLastENVData s.
Proof.
  unfold sens_update, cam_part, env_part, mag_part, env_of.
  destruct (mag_valid d =? MAG_NEW_VAL h), (env_valid d =? ENV_NEW_VAL h); simpl;
    destruct (_ && _); reflexivity.
Qed.

Lemma loop_store_mag rds : forall s acc m0,
  mLastMAGData s = match acc with Some d => mag_of h d | None => m0 end ->
  mLastMAGData (loop_store h rds s)
  = match last_frame h (fun d => mag_valid d =? MAG_NEW_VAL h) rds acc with
    | Some d => mag_of h d | None => m0 end.
Proof.
  induction rds as [| rd rest IH]; intros s acc m0 Hs; [exact Hs |].
  unfold loop_store, last_frame. cbn [fold_left].
  apply IH. destruct (accepted h rd); cbn [andb]; [| exact Hs].
  rewrite sens_update_mag. destruct (_ =? _); [reflexivity | exact Hs].
Qed.

Lemma loop_store_env rds : forall s acc e0,
  mLastENVData s = match acc with Some d => env_of h d | None => e0 end ->
  mLastENVData (loop_store h rds s)
  = match last_frame h (fun d => env_valid d =? ENV_NEW_VAL h) rds acc with
    | Some d => env_of h d | None => e0 end.
Proof.
  induction rds as [| rd rest IH]; intros s acc e0 Hs; [exact Hs |].
  unfold loop_store, last_frame. cbn [fold_left].
  apply IH. destruct (accepted h rd); cbn [andb]; [| exact Hs].
  rewrite sens_update_env. destruct (_ =? _); [reflexivity | exact Hs].
Qed.
End LoopFacts.

(** X10: over a run of reads, the capture loop folds the sample update over
    the accepted reports, in order, and skips the others; it calls
    [hid_set_nonblocking] once for each rejected read and never otherwise. *)
Theorem X10_loop_store {F TS} (h : SensHeader F TS) (rds : list ReadResult)
    (ls : LoopState F TS) :
  store (fst (grab_loop h rds ls)) = loop_store h rds (store ls) /\
  count_nonblocking (snd (grab_loop h rds ls))
  = List.length (filter (fun rd => negb (accepted h rd)) rds).
Proof. apply grab_loop_store. Qed.

(** X11: after a run, the stored magnetometer sample is the one decoded from
    the last accepted frame whose magnetometer status is [NEW_VAL] (the
    previous sample if there is none); the same holds for the environmental
    sample with the environmental status. *)
Theorem X11_last_new_sample {F TS} (h : SensHeader F TS) (rds : list ReadResult)
    (ls : LoopState F TS) :
  mLastMAGData (store (fst (grab_loop h rds ls)))
  = match last_frame h (fun d => mag_valid d =? MAG_NEW_VAL h) rds None with
    | Some d => mag_of h d | None => mLastMAGData (store ls) end /\
  mLastENVData (store (fst (grab_loop h rds ls)))
  = match last_frame h (fun d => env_valid d =? ENV_NEW_VAL h) rds None with
    | Some d => env_of h d | None => mLastENVData (store ls) end.
Proof.
  rewrite (proj1 (grab_loop_store h rds ls)).
  split; [apply loop_store_mag | apply loop_store_env]; reflexivity.
Qed.

(** X12: the IMU valid flag a frame leaves is [imu_not_valid != 1] only when
    both the magnetometer and the environmental status are [NEW_VAL];
    otherwise it is the magnetometer status converted to [bool], whatever
    the IMU validity byte says. *)
Theorem X12_imu_valid_flag {F TS} (h : SensHeader F TS) (d : SensData)
    (s : SampleStore F TS) :
  IMU.valid (mLastIMUData (sens_update h d s))
  = if (mag_valid d =? MAG_NEW_VAL h) && (env_valid d =? ENV_NEW_VAL h)
    then negb (imu_not_valid d =? 1)
    else status_to_bool (mag_valid d).
Proof.
  unfold sens_update. rewrite cam_part_imu.
  unfold env_part, mag_part, imu_part.
  destruct (mag_valid d =? MAG_NEW_VAL h), (env_valid d =? ENV_NEW_VAL h); reflexivity.
Qed.
